(** * spyrograph: the cycloid class ([spyrograph/_cycloid.py])

    A shallow embedding of [_Cycloid]: its constructor, [create_range],
    [n_cusps] and [animate], together with the properties the
    specification states about them.

    Numbers.  Python's [Number] arguments are modelled as exact rationals
    ([Q]); [==] below is numeric equality ([Qeq]), as Python's [==] on
    numbers is.  Rounding of binary floating point is not represented.

    Effects.  Python statements run in a world made of the module's global
    namespace and the chronological log of the calls that leave the module
    (constructor calls, turtle screen methods, [trace], [time.sleep]).  A
    computation either returns a value or raises an exception; both come
    with the world reached at that point. *)

From Stdlib Require Import String List Bool Arith Lia ZArith QArith Qround.
Import ListNotations.

Open Scope string_scope.
Open Scope list_scope.
Open Scope Q_scope.

(** ** Values *)

(** The four optional keyword arguments that describe the angular domain;
    [None] is Python's [None] default. *)
Record theta_kwargs := {
  thetas : option (list Q);
  theta_start : option Q;
  theta_stop : option Q;
  theta_step : option Q
}.

(** An instance of [_Trochoid]: the attributes the constructor stores.  The
    traced points are a function of these attributes (the curve equations)
    and are not stored separately here. *)
Record CurveModel := {
  cm_R : Q;
  cm_r : Q;
  cm_d : Q;
  cm_thetas : list Q;
  cm_origin : Q * Q
}.

(** An argument annotated [Union[Number, List[Number]]]. *)
Inductive param :=
| Scalar (x : Q)
| Sequence (xs : list Q).

(** A turtle drawing surface: the implicit global one, or one handed in by
    the caller. *)
Inductive Screen :=
| GlobalScreen
| Handle (n : nat).

Inductive exn :=
| ValueError (msg : string)
| ZeroDivisionError
| NameError (name : string)
| DegenerateParameterError.

Inductive result (A : Type) :=
| Ok (a : A)
| Raise (e : exn).
Arguments Ok {A} a.
Arguments Raise {A} e.

(** Calls observable from outside the module. *)
Inductive event :=
| EInstantiate (R r : Q) (kw : theta_kwargs) (origin : Q * Q)
| EClear (s : Screen)
| ESetup (s : Screen) (size : Q * Q)
| EBgcolor (s : Screen) (c : string)
| ETrace (shape : CurveModel) (screen : option Screen) (screen_size : Q * Q)
         (screen_color color : string) (width : Q)
| ESleep (seconds : Q)
| EExitOnClick.

Record world := {
  globals : list string;
  log : list event
}.

(** ** The effect monad *)

Definition M (A : Type) : Type := world -> world * result A.

Definition ret {A} (a : A) : M A := fun w => (w, Ok a).

Definition raise {A} (e : exn) : M A := fun w => (w, Raise e).

Definition bind {A B} (m : M A) (f : A -> M B) : M B :=
  fun w =>
    match m w with
    | (w', Ok a) => f a w'
    | (w', Raise e) => (w', Raise e)
    end.

Declare Scope py_scope.
Delimit Scope py_scope with py.
Notation "x <- m ;; k" := (bind m (fun x => k))
  (at level 100, m at next level, right associativity) : py_scope.
Notation "m ;; k" := (bind m (fun _ => k))
  (at level 100, right associativity) : py_scope.
Open Scope py_scope.

Definition emit (e : event) : M unit :=
  fun w => ({| globals := globals w; log := log w ++ [e] |}, Ok tt).

(** [for x in xs: body], where [s] is the value of the local variables the
    body assigns. *)
Fixpoint for_loop {A S : Type} (xs : list A) (body : A -> S -> M S) (s : S)
  : M S :=
  match xs with
  | [] => ret s
  | x :: rest => s' <- body x s ;; for_loop rest body s'
  end.

(** ** The Python runtime the module relies on *)

(** [a / b] on numbers. *)
Definition truediv (a b : Q) : M Q :=
  if Qeq_bool b 0 then raise ZeroDivisionError else ret (a / b).

(** Reading a global name; [turtle] is not a builtin, so builtins are left
    out. *)
Definition load_global (name : string) : M unit :=
  fun w =>
    if existsb (String.eqb name) (globals w) then (w, Ok tt)
    else (w, Raise (NameError name)).

(** [time.sleep(seconds)]. *)
Definition time_sleep (seconds : Q) : M unit :=
  if Qle_bool 0 seconds then emit (ESleep seconds)
  else raise (ValueError "sleep length must be non-negative").

(** Methods of [turtle.Screen]. *)
Definition screen_clear (s : Screen) : M unit := emit (EClear s).
Definition screen_setup (s : Screen) (size : Q * Q) : M unit :=
  emit (ESetup s size).
Definition screen_bgcolor (s : Screen) (c : string) : M unit :=
  emit (EBgcolor s c).
Definition turtle_exitonclick : M unit := emit EExitOnClick.

(** The names bound in the module once it is imported: lines 5-12 of
    [_cycloid.py]. *)
Definition module_globals : list string :=
  ["Number"; "List"; "Tuple"; "Union"; "collections"; "time";
   "_Trochoid"; "_Cycloid"].

(** ** [_Trochoid], the base class ([spyrograph/_trochoid.py]) *)

Module _Trochoid.

(** Modelled from the spec: the half-open range of section 4.1, the values
    [start], [start + step], [start + 2*step], ... that stay strictly below
    [stop]; a step that is not positive gives the empty sequence. *)
Definition arange (start stop step : Q) : list Q :=
  if Qlt_le_dec 0 step then
    map (fun k => start + inject_Z (Z.of_nat k) * step)
        (seq 0 (Z.to_nat (Qceiling ((stop - start) / step))))
  else [].

(** Modelled from the spec: the theta domain builder of section 4.1, whose
    source is in [_trochoid.py].  Either [thetas] alone or the complete
    triple [theta_start], [theta_stop], [theta_step] is accepted. *)
Definition _set_theta_values (kw : theta_kwargs) : M (list Q) :=
  match thetas kw, theta_start kw, theta_stop kw, theta_step kw with
  | Some ts, None, None, None => ret ts
  | Some _, _, _, _ => raise (ValueError "conflicting domain specification")
  | None, Some a, Some b, Some s => ret (arange a b s)
  | None, _, _, _ =>
      raise (ValueError "ambiguous or missing angular domain")
  end.

(** Modelled from the spec: the constructor of section 4.3, whose source is
    in [_trochoid.py].  It resolves the theta domain, rejects a rolling
    circle of radius zero and stores the parameters. *)
Definition __init__ (R r d : Q) (kw : theta_kwargs) (origin : Q * Q)
  : M CurveModel :=
  ts <- _set_theta_values kw ;;
  if Qeq_bool r 0 then raise DegenerateParameterError
  else ret {| cm_R := R; cm_r := r; cm_d := d;
              cm_thetas := ts; cm_origin := origin |}.

(** Modelled from the spec: section 4.5, "normalizes each scalar into a
    one-element sequence"; the helper's source is in [_trochoid.py]. *)
Definition _set_int_to_list (input_val : param) : list Q :=
  match input_val with
  | Scalar x => [x]
  | Sequence xs => xs
  end.

(** Modelled from the spec: section 6, the rendering collaborator behind
    [shape.trace(...)], whose source is in [_trochoid.py].  It is handed the
    shape and the styling, draws on the surface it is given (the implicit
    global surface when it is given none) and hands that surface back. *)
Definition trace (shape : CurveModel) (screen : option Screen)
    (screen_size : Q * Q) (screen_color color : string) (width : Q)
  : M Screen :=
  emit (ETrace shape screen screen_size screen_color color width) ;;
  ret (match screen with Some s => s | None => GlobalScreen end).

End _Trochoid.

(** ** [_Cycloid] *)

(** A class as [create_range], [n_cusps] and [animate] see it through
    [cls]: something that is called with the constructor's arguments. *)
Definition class := Q -> Q -> theta_kwargs -> Q * Q -> M CurveModel.

(** The call [cls(R, r, thetas, theta_start, theta_stop, theta_step,
    origin)]. *)
Definition instantiate (cls : class) (R r : Q) (kw : theta_kwargs)
    (origin : Q * Q) : M CurveModel :=
  emit (EInstantiate R r kw origin) ;; cls R r kw origin.

(** [isinstance(x, collections.abc.Iterable)] *)
Definition is_iterable (x : param) : bool :=
  match x with
  | Scalar _ => false
  | Sequence _ => true
  end.

(** [collections.Counter(l)[True]] *)
Definition Counter_True (l : list bool) : nat := count_occ bool_dec l true.

Module _Cycloid.

Definition __init__ (R r : Q) (kw : theta_kwargs) (origin : Q * Q)
  : M CurveModel :=
  _Trochoid.__init__ R r r kw origin.

Definition create_range (cls : class) (R r : param) (kw : theta_kwargs)
    (origin : Q * Q) : M (list CurveModel) :=
  let inputs := Counter_True [is_iterable R; is_iterable r] in
  if (1 <? inputs)%nat then
    raise (ValueError "More than one input variable was varied. Please only pass one list of varying inputs and try again.")
  else
    let R_arr := _Trochoid._set_int_to_list R in
    let r_arr := _Trochoid._set_int_to_list r in
    for_loop R_arr (fun R shapes =>
      for_loop r_arr (fun r shapes =>
        shape <- instantiate cls R r kw origin ;;
        ret (shapes ++ [shape])) shapes) [].

Definition n_cusps (cls : class) (R n : Q) (kw : theta_kwargs)
    (origin : Q * Q) : M CurveModel :=
  r <- truediv R n ;;
  instantiate cls R r kw origin.

(** The declared return type is [List[_Trochoid]]; the value is an
    [option] because the body falls off its end, which returns [None]. *)
Definition animate (cls : class) (R r : param) (kw : theta_kwargs)
    (origin : Q * Q) (screen_size : Q * Q) (screen_color : string)
    (exit_on_click : bool) (color : string) (width : Q) (frame_pause : Q)
    (screen : option Screen) : M (option (list CurveModel)) :=
  shapes_arr <- create_range cls R r kw origin ;;
  for_loop shapes_arr (fun shape screen =>
    match screen with
    | Some s =>
        screen_clear s ;;
        screen_setup s screen_size ;;
        screen_bgcolor s screen_color
    | None => ret tt
    end ;;
    screen <- _Trochoid.trace shape screen screen_size screen_color
                color width ;;
    time_sleep frame_pause ;;
    ret (Some screen)) screen ;;
  (if exit_on_click then load_global "turtle" ;; turtle_exitonclick
   else ret tt) ;;
  ret None.

End _Cycloid.

(** ** Vocabulary of the statements *)

(** The world [w] after the calls [evs] have been made. *)
Definition extend (w : world) (evs : list event) : world :=
  {| globals := globals w; log := log w ++ evs |}.

(** A computation that never looks at the world: the calls it makes and its
    outcome are the same from every world. *)
Definition oblivious {A} (m : M A) : Prop :=
  exists evs r, forall w, m w = (extend w evs, r).

(** Every run of [m] makes calls that all satisfy [E], leaves the global
    namespace alone and, when it returns, returns a value satisfying [P]. *)
Definition emits_only {A} (E : event -> Prop) (m : M A) (P : A -> Prop)
  : Prop :=
  forall w w' r,
    m w = (w', r) ->
    (exists evs, w' = extend w evs /\ Forall E evs) /\
    (forall a, r = Ok a -> P a).

(** The theta specification is one of the two legal forms. *)
Definition legal_theta (kw : theta_kwargs) : bool :=
  match thetas kw, theta_start kw, theta_stop kw, theta_step kw with
  | Some _, None, None, None => true
  | None, Some _, Some _, Some _ => true
  | _, _, _, _ => false
  end.

(** The theta domain a legal specification resolves to. *)
Definition theta_values (kw : theta_kwargs) : list Q :=
  match thetas kw, theta_start kw, theta_stop kw, theta_step kw with
  | Some ts, None, None, None => ts
  | None, Some a, Some b, Some s => _Trochoid.arange a b s
  | _, _, _, _ => []
  end.

(** The cycloid with radii [R] and [r] over the domain of [kw]. *)
Definition cycloid (kw : theta_kwargs) (origin : Q * Q) (R r : Q)
  : CurveModel :=
  {| cm_R := R; cm_r := r; cm_d := r;
     cm_thetas := theta_values kw; cm_origin := origin |}.

Definition nonzero (x : Q) : Prop := ~ x == 0.

(** The shapes handed to [trace], in the order of the calls. *)
Fixpoint traced (evs : list event) : list CurveModel :=
  match evs with
  | [] => []
  | ETrace shape _ _ _ _ _ :: rest => shape :: traced rest
  | _ :: rest => traced rest
  end.

(** The surface [trace] hands back. *)
Definition surface (screen : option Screen) : Screen :=
  match screen with
  | Some s => s
  | None => GlobalScreen
  end.

(** The three calls that reset a surface. *)
Definition reset_events (screen : option Screen) (screen_size : Q * Q)
    (screen_color : string) : list event :=
  match screen with
  | Some s => [EClear s; ESetup s screen_size; EBgcolor s screen_color]
  | None => []
  end.

(** The calls of one playback of [shapes], frame by frame: reset of the
    current surface if there is one, [trace] of the shape, pause. *)
Fixpoint frames (screen_size : Q * Q) (screen_color color : string)
    (width frame_pause : Q) (shapes : list CurveModel)
    (screen : option Screen) : list event :=
  match shapes with
  | [] => []
  | shape :: rest =>
      reset_events screen screen_size screen_color
      ++ [ETrace shape screen screen_size screen_color color width;
          ESleep frame_pause]
      ++ frames screen_size screen_color color width frame_pause rest
           (Some (surface screen))
  end.

(** A world in which the module has just been imported. *)
Definition fresh_world : world :=
  {| globals := module_globals; log := [] |}.

(** The keyword arguments of a call that passes [thetas=ts]. *)
Definition with_thetas (ts : list Q) : theta_kwargs :=
  {| thetas := Some ts; theta_start := None; theta_stop := None;
     theta_step := None |}.

(** The keyword arguments of a call that passes [theta_start], [theta_stop]
    and [theta_step]. *)
Definition with_range (start stop step : Q) : theta_kwargs :=
  {| thetas := None; theta_start := Some start; theta_stop := Some stop;
     theta_step := Some step |}.

(** Running [f] on the elements of a list from left to right and
    collecting what it returns; the first exception ends the run. *)
Fixpoint map_M {A B : Type} (f : A -> M B) (xs : list A) : M (list B) :=
  match xs with
  | [] => ret []
  | x :: rest => b <- f x ;; bs <- map_M f rest ;; ret (b :: bs)
  end.

(** The pauses asked of [time.sleep], in the order of the calls. *)
Fixpoint sleeps (evs : list event) : list Q :=
  match evs with
  | [] => []
  | ESleep seconds :: rest => seconds :: sleeps rest
  | _ :: rest => sleeps rest
  end.

(** Whether a call is a call of the class. *)
Definition is_instantiate (e : event) : bool :=
  match e with
  | EInstantiate _ _ _ _ => true
  | _ => false
  end.

(** A drawing call made with the given styling: surface size, background
    colour, pen colour, pen width and pause. *)
Definition styled (screen_size : Q * Q) (screen_color color : string)
    (width frame_pause : Q) (e : event) : Prop :=
  match e with
  | EInstantiate _ _ _ _ => False
  | EClear _ => True
  | ESetup _ size => size = screen_size
  | EBgcolor _ c => c = screen_color
  | ETrace _ _ size sc c wd =>
      size = screen_size /\ sc = screen_color /\ c = color /\ wd = width
  | ESleep seconds => seconds = frame_pause
  | EExitOnClick => True
  end.

(** ** Worlds and the monad *)

Lemma extend_nil (w : world) : extend w [] = w.
Proof. destruct w; unfold extend; simpl; now rewrite app_nil_r. Qed.

Lemma extend_extend (w : world) (a b : list event) :
  extend (extend w a) b = extend w (a ++ b).
Proof. unfold extend; simpl; now rewrite app_assoc. Qed.

Lemma globals_extend (w : world) (evs : list event) :
  globals (extend w evs) = globals w.
Proof. reflexivity. Qed.

Lemma emit_run (e : event) (w : world) : emit e w = (extend w [e], Ok tt).
Proof. reflexivity. Qed.

Lemma bind_ok {A B} (m : M A) (f : A -> M B) (w w' : world) (a : A) :
  m w = (w', Ok a) -> bind m f w = f a w'.
Proof. unfold bind; now intros ->. Qed.

Lemma bind_raise {A B} (m : M A) (f : A -> M B) (w w' : world) (e : exn) :
  m w = (w', Raise e) -> bind m f w = (w', Raise e).
Proof. unfold bind; now intros ->. Qed.

(** What a run of [bind m f] is made of. *)
Lemma bind_inv {A B} (m : M A) (f : A -> M B) (w w' : world) (r : result B) :
  bind m f w = (w', r) ->
  (exists w1 a, m w = (w1, Ok a) /\ f a w1 = (w', r)) \/
  (exists e, m w = (w', Raise e) /\ r = Raise e).
Proof.
  unfold bind. destruct (m w) as [w1 [a | e]]; intros H.
  - left; eauto.
  - right; exists e; inversion H; auto.
Qed.

(** *** Oblivious computations *)

Lemma oblivious_ret {A} (a : A) : oblivious (ret a).
Proof. exists [], (Ok a); intros w; unfold ret; now rewrite extend_nil. Qed.

Lemma oblivious_raise {A} (e : exn) : oblivious (@raise A e).
Proof. exists [], (Raise e); intros w; unfold raise; now rewrite extend_nil. Qed.

Lemma oblivious_emit (e : event) : oblivious (emit e).
Proof. exists [e], (Ok tt); intros w; apply emit_run. Qed.

Lemma oblivious_bind {A B} (m : M A) (f : A -> M B) :
  oblivious m -> (forall a, oblivious (f a)) -> oblivious (bind m f).
Proof.
  intros (evs & [a | e] & Hm) Hf.
  - destruct (Hf a) as (evs' & r' & Hfa).
    exists (evs ++ evs'), r'; intros w.
    rewrite (bind_ok _ _ _ _ _ (Hm w)), Hfa. now rewrite extend_extend.
  - exists evs, (Raise e); intros w.
    now rewrite (bind_raise _ _ _ _ _ (Hm w)).
Qed.

Lemma oblivious_for_loop {A S} (body : A -> S -> M S) :
  (forall x s, oblivious (body x s)) ->
  forall xs s, oblivious (for_loop xs body s).
Proof.
  intros Hbody xs; induction xs as [| x rest IH]; intros s; simpl.
  - apply oblivious_ret.
  - apply oblivious_bind; auto.
Qed.

(** Two runs of an oblivious computation agree on the outcome and on the
    calls made. *)
Lemma oblivious_agree {A} (m : M A) :
  oblivious m ->
  forall w1 w2,
    snd (m w1) = snd (m w2) /\
    exists evs, fst (m w1) = extend w1 evs /\ fst (m w2) = extend w2 evs.
Proof.
  intros (evs & r & Hm) w1 w2. rewrite !Hm; simpl. split; eauto.
Qed.

(** *** Computations whose calls all satisfy a predicate *)

Lemma emits_only_ret {A} E (a : A) (P : A -> Prop) :
  P a -> emits_only E (ret a) P.
Proof.
  intros Ha w w' r H; inversion H; subst; split.
  - exists []; now rewrite extend_nil.
  - intros a' Hr; now inversion Hr; subst.
Qed.

Lemma emits_only_raise {A} E (e : exn) (P : A -> Prop) :
  emits_only E (raise e) P.
Proof.
  intros w w' r H; inversion H; subst; split.
  - exists []; now rewrite extend_nil.
  - intros a' Hr; discriminate.
Qed.

Lemma emits_only_emit (E : event -> Prop) (e : event) (P : unit -> Prop) :
  E e -> P tt -> emits_only E (emit e) P.
Proof.
  intros He Ht w w' r H; rewrite emit_run in H; inversion H; subst; split.
  - exists [e]; auto.
  - intros [] _; exact Ht.
Qed.

Lemma emits_only_bind {A B} E (m : M A) (f : A -> M B)
    (P : A -> Prop) (P' : B -> Prop) :
  emits_only E m P ->
  (forall a, P a -> emits_only E (f a) P') ->
  emits_only E (bind m f) P'.
Proof.
  intros Hm Hf w w' r H.
  destruct (bind_inv _ _ _ _ _ H) as [(w1 & a & H1 & H2) | (e & H1 & ->)].
  - destruct (Hm _ _ _ H1) as [(evs1 & -> & F1) Pa].
    destruct (Hf a (Pa a eq_refl) _ _ _ H2) as [(evs2 & -> & F2) Pb].
    split; auto.
    exists (evs1 ++ evs2); rewrite extend_extend; split; auto.
    apply Forall_app; auto.
  - destruct (Hm _ _ _ H1) as [Hev _]; split; auto.
    intros b Hb; discriminate.
Qed.

Lemma emits_only_for_loop {A S} E (body : A -> S -> M S) (I : S -> Prop) :
  (forall x s, I s -> emits_only E (body x s) I) ->
  forall xs s, I s -> emits_only E (for_loop xs body s) I.
Proof.
  intros Hbody xs; induction xs as [| x rest IH]; intros s Hs; simpl.
  - now apply emits_only_ret.
  - eapply emits_only_bind; [apply Hbody; exact Hs | intros s' Hs'; auto].
Qed.

(** ** Lists produced by nested iteration *)

Lemma length_flat_map_map {A B C} (f : A -> B -> C) (xs : list A)
    (ys : list B) :
  length (flat_map (fun a => map (f a) ys) xs)
  = (length xs * length ys)%nat.
Proof.
  induction xs as [| x rest IH]; simpl; auto.
  now rewrite length_app, length_map, IH.
Qed.

Lemma nth_error_flat_map_map {A B C} (f : A -> B -> C) (ys : list B) :
  forall (xs : list A) i j x y,
    nth_error xs i = Some x ->
    nth_error ys j = Some y ->
    nth_error (flat_map (fun a => map (f a) ys) xs) (i * length ys + j)
    = Some (f x y).
Proof.
  induction xs as [| x0 rest IH]; intros i j x y Hi Hj.
  - destruct i; discriminate.
  - assert (Hlt : (j < length ys)%nat)
      by (apply nth_error_Some; congruence).
    destruct i as [| i]; simpl in *.
    + inversion Hi; subst.
      rewrite nth_error_app1 by now rewrite length_map.
      now apply map_nth_error.
    + rewrite nth_error_app2 by (rewrite length_map; lia).
      rewrite length_map.
      replace (length ys + i * length ys + j - length ys)%nat
        with (i * length ys + j)%nat by lia.
      now apply IH.
Qed.

(** ** The constructors *)

Lemma set_theta_values_legal (kw : theta_kwargs) (w : world) :
  legal_theta kw = true ->
  _Trochoid._set_theta_values kw w = (w, Ok (theta_values kw)).
Proof.
  unfold legal_theta, theta_values, _Trochoid._set_theta_values.
  destruct (thetas kw), (theta_start kw), (theta_stop kw), (theta_step kw);
    intros H; try discriminate; reflexivity.
Qed.

Lemma set_theta_values_illegal (kw : theta_kwargs) (w : world) :
  legal_theta kw = false ->
  exists msg, _Trochoid._set_theta_values kw w = (w, Raise (ValueError msg)).
Proof.
  unfold legal_theta, _Trochoid._set_theta_values.
  destruct (thetas kw), (theta_start kw), (theta_stop kw), (theta_step kw);
    intros H; try discriminate; eexists; reflexivity.
Qed.

Lemma Qeq_bool_nonzero (x : Q) : nonzero x -> Qeq_bool x 0 = false.
Proof.
  intros H. destruct (Qeq_bool x 0) eqn:E; auto.
  apply Qeq_bool_iff in E. contradiction.
Qed.

(** The three ways a cycloid construction can go. *)
Lemma cycloid_init_cases (R r : Q) (kw : theta_kwargs) (origin : Q * Q)
    (w : world) :
  (legal_theta kw = true /\ nonzero r /\
   _Cycloid.__init__ R r kw origin w = (w, Ok (cycloid kw origin R r))) \/
  (legal_theta kw = true /\ r == 0 /\
   _Cycloid.__init__ R r kw origin w = (w, Raise DegenerateParameterError)) \/
  (legal_theta kw = false /\
   exists msg, _Cycloid.__init__ R r kw origin w = (w, Raise (ValueError msg))).
Proof.
  unfold _Cycloid.__init__, _Trochoid.__init__.
  destruct (legal_theta kw) eqn:L.
  - rewrite (bind_ok _ _ _ _ _ (set_theta_values_legal kw w L)).
    destruct (Qeq_bool r 0) eqn:E.
    + right; left; repeat split; auto. now apply Qeq_bool_iff.
    + left; repeat split; auto.
      intros H; apply Qeq_bool_iff in H; congruence.
  - right; right; split; auto.
    destruct (set_theta_values_illegal kw w L) as (msg & Hm).
    exists msg. now rewrite (bind_raise _ _ _ _ _ Hm).
Qed.

Lemma cycloid_init_ok (R r : Q) (kw : theta_kwargs) (origin : Q * Q)
    (w : world) :
  legal_theta kw = true -> nonzero r ->
  _Cycloid.__init__ R r kw origin w = (w, Ok (cycloid kw origin R r)).
Proof.
  intros L N.
  destruct (cycloid_init_cases R r kw origin w)
    as [(_ & _ & H) | [(_ & Z & _) | (L' & _)]]; auto.
  - contradiction.
  - congruence.
Qed.

(** A successful construction changes nothing in the world and yields the
    cycloid of its arguments. *)
Lemma cycloid_init_inv (R r : Q) (kw : theta_kwargs) (origin : Q * Q)
    (w w' : world) (m : CurveModel) :
  _Cycloid.__init__ R r kw origin w = (w', Ok m) ->
  w' = w /\ m = cycloid kw origin R r /\
  legal_theta kw = true /\ nonzero r.
Proof.
  intros H.
  destruct (cycloid_init_cases R r kw origin w)
    as [(L & N & H') | [(_ & _ & H') | (_ & msg & H')]];
    rewrite H' in H; inversion H; subst; auto.
Qed.

Lemma cycloid_init_oblivious (R r : Q) (kw : theta_kwargs) (origin : Q * Q) :
  oblivious (_Cycloid.__init__ R r kw origin).
Proof.
  destruct (legal_theta kw) eqn:L.
  - destruct (Qeq_bool r 0) eqn:E.
    + exists [], (Raise DegenerateParameterError); intros w.
      rewrite extend_nil.
      destruct (cycloid_init_cases R r kw origin w)
        as [(_ & N & _) | [(_ & _ & H) | (L' & _)]]; auto; try congruence.
      apply Qeq_bool_iff in E; contradiction.
    + exists [], (Ok (cycloid kw origin R r)); intros w.
      rewrite extend_nil. apply cycloid_init_ok; auto.
      intros H; apply Qeq_bool_iff in H; congruence.
  - unfold _Cycloid.__init__, _Trochoid.__init__.
    unfold legal_theta in L. unfold _Trochoid._set_theta_values.
    destruct (thetas kw), (theta_start kw), (theta_stop kw), (theta_step kw);
      try discriminate;
      eexists [], _; intros w; rewrite extend_nil; reflexivity.
Qed.

Lemma instantiate_oblivious (R r : Q) (kw : theta_kwargs) (origin : Q * Q) :
  oblivious (instantiate _Cycloid.__init__ R r kw origin).
Proof.
  apply oblivious_bind; [apply oblivious_emit |].
  intros _; apply cycloid_init_oblivious.
Qed.

Lemma instantiate_ok (R r : Q) (kw : theta_kwargs) (origin : Q * Q)
    (w : world) :
  legal_theta kw = true -> nonzero r ->
  instantiate _Cycloid.__init__ R r kw origin w
  = (extend w [EInstantiate R r kw origin], Ok (cycloid kw origin R r)).
Proof.
  intros L N. unfold instantiate.
  rewrite (bind_ok _ _ _ _ _ (emit_run _ w)).
  now apply cycloid_init_ok.
Qed.

(** Whatever its outcome, a cycloid instantiation makes one call, with the
    theta specification and the origin it was given. *)
Lemma instantiate_emits (R r : Q) (kw : theta_kwargs) (origin : Q * Q) :
  emits_only (fun e => exists Ri rj, e = EInstantiate Ri rj kw origin)
    (instantiate _Cycloid.__init__ R r kw origin)
    (fun m => exists Ri rj, m = cycloid kw origin Ri rj).
Proof.
  intros w w' res H. unfold instantiate in H.
  rewrite (bind_ok _ _ _ _ _ (emit_run _ w)) in H.
  assert (Hw : w' = extend w [EInstantiate R r kw origin]).
  { destruct (cycloid_init_cases R r kw origin
                (extend w [EInstantiate R r kw origin]))
      as [(_ & _ & H') | [(_ & _ & H') | (_ & msg & H')]];
      rewrite H' in H; now inversion H. }
  split.
  - exists [EInstantiate R r kw origin]; split; auto.
    constructor; eauto.
  - intros m ->. apply cycloid_init_inv in H as (_ & -> & _). eauto.
Qed.

(** ** [create_range] on cycloids *)

Section CreateRange.

Variables (kw : theta_kwargs) (origin : Q * Q).

Lemma inner_loop_run (R : Q) (rs : list Q) :
  legal_theta kw = true -> Forall nonzero rs ->
  forall shapes w,
    for_loop rs (fun r shapes =>
                 shape <- instantiate _Cycloid.__init__ R r kw origin ;;
                 ret (shapes ++ [shape])) shapes w
    = (extend w (map (fun r => EInstantiate R r kw origin) rs),
       Ok (shapes ++ map (cycloid kw origin R) rs)).
Proof.
  intros L; induction 1 as [| r rest N _ IH]; intros shapes w; simpl.
  - unfold ret. now rewrite extend_nil, app_nil_r.
  - rewrite (bind_ok _ _ _ _ _
               (bind_ok _ _ _ _ _ (instantiate_ok R r kw origin w L N))).
    unfold ret at 1. rewrite IH, extend_extend, <- app_assoc. reflexivity.
Qed.

Lemma outer_loop_run (Rs rs : list Q) :
  legal_theta kw = true -> Forall nonzero rs ->
  forall shapes w,
    for_loop Rs (fun R shapes => for_loop rs (fun r shapes =>
                     shape <- instantiate _Cycloid.__init__ R r kw origin ;;
                     ret (shapes ++ [shape])) shapes) shapes w
    = (extend w
         (flat_map (fun R => map (fun r => EInstantiate R r kw origin) rs) Rs),
       Ok (shapes ++ flat_map (fun R => map (cycloid kw origin R) rs) Rs)).
Proof.
  intros L N; induction Rs as [| R rest IH]; intros shapes w; simpl.
  - unfold ret. now rewrite extend_nil, app_nil_r.
  - rewrite (bind_ok _ _ _ _ _ (inner_loop_run R rs L N shapes w)).
    rewrite IH, extend_extend, <- app_assoc. reflexivity.
Qed.

(** The run of [create_range] when every construction succeeds. *)
Lemma create_range_run (R r : param) (w : world) :
  is_iterable R = false \/ is_iterable r = false ->
  legal_theta kw = true ->
  Forall nonzero (_Trochoid._set_int_to_list r) ->
  _Cycloid.create_range _Cycloid.__init__ R r kw origin w
  = (extend w
       (flat_map (fun Ri => map (fun rj => EInstantiate Ri rj kw origin)
                              (_Trochoid._set_int_to_list r))
                 (_Trochoid._set_int_to_list R)),
     Ok (flat_map (fun Ri => map (cycloid kw origin Ri)
                               (_Trochoid._set_int_to_list r))
                  (_Trochoid._set_int_to_list R))).
Proof.
  intros One L N. unfold _Cycloid.create_range.
  replace (1 <? Counter_True [is_iterable R; is_iterable r])%nat with false
    by (destruct One as [-> | ->];
        [destruct (is_iterable r) | destruct (is_iterable R)]; reflexivity).
  exact (outer_loop_run _ _ L N [] w).
Qed.

Lemma create_range_oblivious (R r : param) :
  oblivious (_Cycloid.create_range _Cycloid.__init__ R r kw origin).
Proof.
  unfold _Cycloid.create_range.
  destruct (1 <? Counter_True [is_iterable R; is_iterable r])%nat.
  - apply oblivious_raise.
  - apply oblivious_for_loop; intros Ri shapes.
    apply oblivious_for_loop; intros rj shapes'.
    apply oblivious_bind; [apply instantiate_oblivious |].
    intros shape; apply oblivious_ret.
Qed.

(** Every constructor call of [create_range] carries the caller's theta
    specification and origin, and every shape it returns is a cycloid over
    them. *)
Lemma create_range_emits (R r : param) :
  emits_only (fun e => exists Ri rj, e = EInstantiate Ri rj kw origin)
    (_Cycloid.create_range _Cycloid.__init__ R r kw origin)
    (Forall (fun m => exists Ri rj, m = cycloid kw origin Ri rj)).
Proof.
  unfold _Cycloid.create_range.
  destruct (1 <? Counter_True [is_iterable R; is_iterable r])%nat.
  - apply emits_only_raise.
  - apply emits_only_for_loop; [| constructor].
    intros Ri shapes Hs.
    apply emits_only_for_loop; [| exact Hs].
    intros rj shapes' Hs'.
    eapply emits_only_bind; [apply instantiate_emits |].
    intros shape Hshape. apply emits_only_ret.
    apply Forall_app; split; auto.
Qed.

End CreateRange.

(** ** [animate] *)

Lemma traced_app (a b : list event) : traced (a ++ b) = traced a ++ traced b.
Proof.
  induction a as [| e rest IH]; simpl; auto.
  destruct e; simpl; auto. now rewrite IH.
Qed.

Lemma traced_reset (screen : option Screen) (size : Q * Q) (c : string) :
  traced (reset_events screen size c) = [].
Proof. now destruct screen. Qed.

Lemma traced_frames size scol col width fp (shapes : list CurveModel) :
  forall screen, traced (frames size scol col width fp shapes screen) = shapes.
Proof.
  induction shapes as [| shape rest IH]; intros screen; simpl; auto.
  rewrite traced_app, traced_reset; simpl. now rewrite IH.
Qed.

Lemma time_sleep_run (seconds : Q) (w : world) :
  0 <= seconds -> time_sleep seconds w = (extend w [ESleep seconds], Ok tt).
Proof.
  intros H. unfold time_sleep.
  now replace (Qle_bool 0 seconds) with true
    by (symmetry; now apply Qle_bool_iff).
Qed.

(** The surface reset at the head of a frame. *)
Lemma reset_run (screen : option Screen) (size : Q * Q) (c : string)
    (w : world) :
  match screen with
  | Some s => screen_clear s ;; screen_setup s size ;; screen_bgcolor s c
  | None => ret tt
  end w = (extend w (reset_events screen size c), Ok tt).
Proof.
  destruct screen as [s |]; simpl.
  - unfold screen_clear, screen_setup, screen_bgcolor.
    rewrite (bind_ok _ _ _ _ _ (emit_run _ w)).
    rewrite (bind_ok _ _ _ _ _ (emit_run _ _)).
    now rewrite emit_run, !extend_extend.
  - unfold ret. now rewrite extend_nil.
Qed.

(** The playback loop of [animate] makes the calls of [frames], in that
    order, when the pause is a legal argument of [time.sleep]. *)
Lemma playback_run size scol col width fp (shapes : list CurveModel) :
  0 <= fp ->
  forall screen w,
    exists screen',
      for_loop shapes (fun shape screen =>
        match screen with
        | Some s =>
            screen_clear s ;; screen_setup s size ;; screen_bgcolor s scol
        | None => ret tt
        end ;;
        screen <- _Trochoid.trace shape screen size scol col width ;;
        time_sleep fp ;;
        ret (Some screen)) screen w
      = (extend w (frames size scol col width fp shapes screen), Ok screen').
Proof.
  intros Hfp; induction shapes as [| shape rest IH]; intros screen w; simpl.
  - exists screen. unfold ret. now rewrite extend_nil.
  - destruct (IH (Some (surface screen))
                (extend w (reset_events screen size scol
                           ++ [ETrace shape screen size scol col width;
                               ESleep fp])))
      as (screen' & Hrest).
    exists screen'.
    erewrite bind_ok; [rewrite Hrest, extend_extend, <- app_assoc; reflexivity |].
    rewrite (bind_ok _ _ _ _ _ (reset_run screen size scol w)).
    unfold _Trochoid.trace.
    erewrite bind_ok by (erewrite bind_ok by apply emit_run; reflexivity).
    rewrite (bind_ok _ _ _ _ _ (time_sleep_run fp _ Hfp)).
    unfold ret. rewrite !extend_extend. reflexivity.
Qed.

(** The names the module binds do not include [turtle]. *)
Lemma turtle_unbound :
  existsb (String.eqb "turtle") module_globals = false.
Proof. reflexivity. Qed.

(** The run of [animate] once [create_range] has returned. *)
Lemma animate_run (cls : class) R r kw origin size scol
    (exit_on_click : bool) col width fp screen (w w1 : world)
    (shapes : list CurveModel) :
  _Cycloid.create_range cls R r kw origin w = (w1, Ok shapes) ->
  0 <= fp ->
  _Cycloid.animate cls R r kw origin size scol exit_on_click col width fp
    screen w
  = let w2 := extend w1 (frames size scol col width fp shapes screen) in
    if exit_on_click then
      if existsb (String.eqb "turtle") (globals w1)
      then (extend w2 [EExitOnClick], Ok None)
      else (w2, Raise (NameError "turtle"))
    else (w2, Ok None).
Proof.
  intros Hcr Hfp. unfold _Cycloid.animate.
  rewrite (bind_ok _ _ _ _ _ Hcr).
  destruct (playback_run size scol col width fp shapes Hfp screen w1)
    as (screen' & Hloop).
  rewrite (bind_ok _ _ _ _ _ Hloop). cbv zeta.
  destruct exit_on_click.
  - unfold bind at 1, bind at 1, load_global. rewrite globals_extend.
    destruct (existsb (String.eqb "turtle") (globals w1)); reflexivity.
  - reflexivity.
Qed.

(** ** The constructor *)

(** C1: whatever R, r, theta specification and origin the cycloid
    constructor is called with, it is the trochoid constructor called with
    d = r (its signature has no d to pass), so the curve model it produces
    has its trace-point offset d equal to the rolling-circle radius r; and
    it does produce one as soon as the theta specification is legal and r is
    not zero. *)
Theorem cycloid_d_equals_r (R r : Q) (kw : theta_kwargs) (origin : Q * Q)
    (w : world) :
  _Cycloid.__init__ R r kw origin = _Trochoid.__init__ R r r kw origin /\
  (forall w' m,
      _Cycloid.__init__ R r kw origin w = (w', Ok m) ->
      cm_d m = r /\ cm_r m = r /\ cm_R m = R /\ cm_origin m = origin) /\
  (legal_theta kw = true -> nonzero r ->
   exists m,
     _Cycloid.__init__ R r kw origin w = (w, Ok m) /\
     cm_d m = r /\ cm_r m = r).
Proof.
  split; [reflexivity | split].
  - intros w' m H. apply cycloid_init_inv in H as (_ & -> & _).
    repeat split.
  - intros L N. exists (cycloid kw origin R r).
    split; [now apply cycloid_init_ok | split; reflexivity].
Qed.

Lemma cycloid_d_equals_r_witness :
  exists m,
    _Cycloid.__init__ 5 3 (with_thetas [0; 1]) (0, 0) fresh_world
    = (fresh_world, Ok m) /\
    cm_d m = 3 /\ cm_r m = 3.
Proof.
  apply (proj2 (proj2 (cycloid_d_equals_r 5 3 (with_thetas [0; 1]) (0, 0)
                         fresh_world))).
  - reflexivity.
  - intros H; discriminate H.
Defined.

(** ** [create_range] *)

(** C2: when at most one of R and r is a sequence (a scalar standing for the
    one-element sequence), the theta specification is legal and no r value
    is zero, create_range returns exactly m*k models, where m and k are the
    numbers of R values and of r values, and the model at position i*k + j
    has the parameters (R_i, r_j): the order is that of the nested loops,
    R outside and r inside, both in the order supplied. *)
Theorem create_range_nested_order (R r : param) (kw : theta_kwargs)
    (origin : Q * Q) (w : world) :
  is_iterable R = false \/ is_iterable r = false ->
  legal_theta kw = true ->
  Forall nonzero (_Trochoid._set_int_to_list r) ->
  exists shapes w',
    _Cycloid.create_range _Cycloid.__init__ R r kw origin w
    = (w', Ok shapes) /\
    length shapes
    = (length (_Trochoid._set_int_to_list R)
       * length (_Trochoid._set_int_to_list r))%nat /\
    forall i j Ri rj,
      nth_error (_Trochoid._set_int_to_list R) i = Some Ri ->
      nth_error (_Trochoid._set_int_to_list r) j = Some rj ->
      exists shape,
        nth_error shapes (i * length (_Trochoid._set_int_to_list r) + j)
        = Some shape /\
        cm_R shape = Ri /\ cm_r shape = rj.
Proof.
  intros One L N. eexists _, _.
  split; [now apply create_range_run | split].
  - apply length_flat_map_map.
  - intros i j Ri rj Hi Hj. exists (cycloid kw origin Ri rj).
    split; [| split; reflexivity].
    now apply (nth_error_flat_map_map (cycloid kw origin)).
Qed.

Lemma create_range_nested_order_witness :
  exists shapes w',
    _Cycloid.create_range _Cycloid.__init__ (Scalar 10) (Sequence [4; 5; 6])
      (with_thetas [0; 1]) (0, 0) fresh_world
    = (w', Ok shapes) /\
    map (fun shape => (cm_R shape, cm_r shape)) shapes
    = [(10, 4); (10, 5); (10, 6)].
Proof.
  destruct (create_range_nested_order (Scalar 10) (Sequence [4; 5; 6])
              (with_thetas [0; 1]) (0, 0) fresh_world)
    as (shapes & w' & Hrun & Hlen & Hnth).
  - left; reflexivity.
  - reflexivity.
  - repeat constructor; intros H; discriminate H.
  - exists shapes, w'. split; [exact Hrun |].
    destruct shapes as [| a [| b [| c [| ? ?]]]]; try discriminate Hlen.
    destruct (Hnth 0%nat 0%nat 10 4 eq_refl eq_refl) as (s0 & E0 & R0 & r0).
    destruct (Hnth 0%nat 1%nat 10 5 eq_refl eq_refl) as (s1 & E1 & R1 & r1).
    destruct (Hnth 0%nat 2%nat 10 6 eq_refl eq_refl) as (s2 & E2 & R2 & r2).
    simpl in E0, E1, E2.
    inversion E0; inversion E1; inversion E2; subst s0 s1 s2.
    simpl. now rewrite R0, r0, R1, r1, R2, r2.
Defined.

(** The example of the specification, by evaluation. *)
Example create_range_10_456 :
  snd (_Cycloid.create_range _Cycloid.__init__ (Scalar 10)
         (Sequence [4; 5; 6]) (with_thetas [0; 1]) (0, 0) fresh_world)
  = Ok [cycloid (with_thetas [0; 1]) (0, 0) 10 4;
        cycloid (with_thetas [0; 1]) (0, 0) 10 5;
        cycloid (with_thetas [0; 1]) (0, 0) 10 6].
Proof. reflexivity. Qed.

(** C3: when both R and r are sequences, create_range raises the
    ValueError (the configuration error of the specification) in the world
    it was called in: no call has been made, so no curve model has been
    constructed, whatever the class is. *)
Theorem create_range_rejects_two_sequences (cls : class) (R r : param)
    (kw : theta_kwargs) (origin : Q * Q) (w : world) :
  is_iterable R = true -> is_iterable r = true ->
  _Cycloid.create_range cls R r kw origin w
  = (w, Raise (ValueError "More than one input variable was varied. Please only pass one list of varying inputs and try again.")).
Proof.
  intros HR Hr. unfold _Cycloid.create_range. now rewrite HR, Hr.
Qed.

Lemma create_range_rejects_two_sequences_witness :
  _Cycloid.create_range _Cycloid.__init__ (Sequence [1; 2]) (Sequence [3; 4])
    (with_thetas [0; 1]) (0, 0) fresh_world
  = (fresh_world, Raise (ValueError "More than one input variable was varied. Please only pass one list of varying inputs and try again.")).
Proof.
  apply (create_range_rejects_two_sequences _Cycloid.__init__
           (Sequence [1; 2]) (Sequence [3; 4])); reflexivity.
Defined.

(** ** [n_cusps] *)

Lemma Qdiv_nonzero (a b : Q) : nonzero a -> nonzero b -> nonzero (a / b).
Proof.
  intros Ha Hb H. apply Ha.
  rewrite <- (Qmult_div_r a b Hb), H. apply Qmult_0_r.
Qed.

Lemma truediv_run (a b : Q) (w : world) :
  nonzero b -> truediv a b w = (w, Ok (a / b)).
Proof.
  intros H. unfold truediv. now rewrite (Qeq_bool_nonzero b H).
Qed.

(** C4: for every R and every n that is not zero (nothing asks n to be
    positive or an integer), n_cusps computes r = R / n and instantiates the
    class with it, so the cycloid it returns has r = R / n and d = r; it
    does return one as soon as the theta specification is legal and R is not
    zero, which keeps R / n away from zero. *)
Theorem n_cusps_radius (R n : Q) (kw : theta_kwargs) (origin : Q * Q)
    (w : world) :
  nonzero n ->
  _Cycloid.n_cusps _Cycloid.__init__ R n kw origin w
  = instantiate _Cycloid.__init__ R (R / n) kw origin w /\
  (forall w' m,
      _Cycloid.n_cusps _Cycloid.__init__ R n kw origin w = (w', Ok m) ->
      cm_r m = R / n /\ cm_d m = R / n /\ cm_R m = R) /\
  (legal_theta kw = true -> nonzero R ->
   exists m,
     _Cycloid.n_cusps _Cycloid.__init__ R n kw origin w
     = (extend w [EInstantiate R (R / n) kw origin], Ok m) /\
     cm_r m = R / n /\ cm_d m = R / n).
Proof.
  intros Hn.
  assert (Hrun : _Cycloid.n_cusps _Cycloid.__init__ R n kw origin w
                 = instantiate _Cycloid.__init__ R (R / n) kw origin w).
  { unfold _Cycloid.n_cusps.
    now rewrite (bind_ok _ _ _ _ _ (truediv_run R n w Hn)). }
  split; [exact Hrun | rewrite Hrun; split].
  - intros w' m H. unfold instantiate in H.
    rewrite (bind_ok _ _ _ _ _ (emit_run _ w)) in H.
    apply cycloid_init_inv in H as (_ & -> & _). repeat split.
  - intros L HR. exists (cycloid kw origin R (R / n)).
    split; [| split; reflexivity].
    apply instantiate_ok; auto. now apply Qdiv_nonzero.
Qed.

Lemma n_cusps_radius_witness :
  exists m,
    _Cycloid.n_cusps _Cycloid.__init__ 10 5 (with_range 0 2 (1 # 2)) (0, 0)
      fresh_world
    = (extend fresh_world
         [EInstantiate 10 (10 / 5) (with_range 0 2 (1 # 2)) (0, 0)], Ok m) /\
    cm_r m == 2 /\ cm_d m == 2.
Proof.
  assert (N5 : nonzero 5) by (intros H; discriminate H).
  assert (N10 : nonzero 10) by (intros H; discriminate H).
  destruct (proj2 (proj2 (n_cusps_radius 10 5 (with_range 0 2 (1 # 2))
                            (0, 0) fresh_world N5)) eq_refl N10)
    as (m & Hrun & Hr & Hd).
  exists m. rewrite Hr, Hd. split; [exact Hrun | split; reflexivity].
Defined.

(** C5: for every R, n_cusps called with n equal to zero raises
    ZeroDivisionError in the world it was called in: the division is
    evaluated before the class is called, so no call has been made and no
    curve model has been constructed, whatever the class is. *)
Theorem n_cusps_zero_division (cls : class) (R n : Q) (kw : theta_kwargs)
    (origin : Q * Q) (w : world) :
  n == 0 ->
  _Cycloid.n_cusps cls R n kw origin w = (w, Raise ZeroDivisionError).
Proof.
  intros Hn. unfold _Cycloid.n_cusps, truediv.
  apply Qeq_bool_iff in Hn. now rewrite Hn.
Qed.

Lemma n_cusps_zero_division_witness :
  _Cycloid.n_cusps _Cycloid.__init__ 10 0 (with_thetas [0; 1]) (0, 0)
    fresh_world
  = (fresh_world, Raise ZeroDivisionError).
Proof.
  apply (n_cusps_zero_division _Cycloid.__init__ 10 0). reflexivity.
Defined.

(** ** Invariants of [create_range] *)

(** C6: in one call of create_range, every constructor call carries the
    theta specification and the origin the caller passed, only R and r
    differ from call to call; and any two models of the returned list have
    the same theta domain and the same origin, the caller's. *)
Theorem create_range_shares_theta_and_origin (R r : param)
    (kw : theta_kwargs) (origin : Q * Q) (w : world) :
  (exists evs,
      fst (_Cycloid.create_range _Cycloid.__init__ R r kw origin w)
      = extend w evs /\
      Forall (fun e => exists Ri rj, e = EInstantiate Ri rj kw origin) evs) /\
  (forall shapes,
      snd (_Cycloid.create_range _Cycloid.__init__ R r kw origin w)
      = Ok shapes ->
      forall s1 s2,
        In s1 shapes -> In s2 shapes ->
        cm_thetas s1 = cm_thetas s2 /\
        cm_origin s1 = cm_origin s2 /\ cm_origin s1 = origin).
Proof.
  destruct (_Cycloid.create_range _Cycloid.__init__ R r kw origin w)
    as [w' res] eqn:Hrun.
  destruct (create_range_emits kw origin R r _ _ _ Hrun) as [Hev Hres].
  split; [exact Hev |].
  simpl. intros shapes -> s1 s2 H1 H2.
  pose proof (Hres shapes eq_refl) as Hall.
  rewrite Forall_forall in Hall.
  destruct (Hall s1 H1) as (? & ? & ->), (Hall s2 H2) as (? & ? & ->).
  repeat split.
Qed.

(** C7: create_range is deterministic.  Called twice with the same R, r,
    theta specification and origin, in whatever two worlds, it has the same
    outcome (the same list of models: same length, same order, equal
    models position by position, or the same exception) and makes the same
    constructor calls. *)
Theorem create_range_deterministic (R r : param) (kw : theta_kwargs)
    (origin : Q * Q) (w1 w2 : world) :
  snd (_Cycloid.create_range _Cycloid.__init__ R r kw origin w1)
  = snd (_Cycloid.create_range _Cycloid.__init__ R r kw origin w2) /\
  exists evs,
    fst (_Cycloid.create_range _Cycloid.__init__ R r kw origin w1)
    = extend w1 evs /\
    fst (_Cycloid.create_range _Cycloid.__init__ R r kw origin w2)
    = extend w2 evs.
Proof.
  apply oblivious_agree, create_range_oblivious.
Qed.

(** ** Playback *)

(** C8: animate plays the models of create_range strictly in their output
    order.  After create_range has returned [shapes], the calls animate
    makes are, frame by frame and model by model: the reset of the current
    surface when there is one (the caller's for the first model, the one
    trace handed back afterwards), the trace of the model, the pause of
    frame_pause seconds; nothing else but a possible final exitonclick.  So
    the shapes are handed to trace in exactly the order of the list.  The
    pause must be one time.sleep accepts. *)
Theorem animate_plays_in_order (cls : class) (R r : param)
    (kw : theta_kwargs) (origin size : Q * Q) (scol : string)
    (exit_on_click : bool) (col : string) (width fp : Q)
    (screen : option Screen) (w w1 : world) (shapes : list CurveModel) :
  _Cycloid.create_range cls R r kw origin w = (w1, Ok shapes) ->
  0 <= fp ->
  exists tail,
    fst (_Cycloid.animate cls R r kw origin size scol exit_on_click col
           width fp screen w)
    = extend w1 (frames size scol col width fp shapes screen ++ tail) /\
    (tail = [] \/ tail = [EExitOnClick]) /\
    traced (frames size scol col width fp shapes screen ++ tail) = shapes.
Proof.
  intros Hcr Hfp.
  rewrite (animate_run cls R r kw origin size scol exit_on_click col width
             fp screen w w1 shapes Hcr Hfp).
  cbv zeta.
  destruct exit_on_click;
    [destruct (existsb (String.eqb "turtle") (globals w1)) |].
  - exists [EExitOnClick]; simpl fst. rewrite extend_extend.
    repeat split; auto.
    rewrite traced_app, traced_frames; simpl. apply app_nil_r.
  - exists []; simpl fst. rewrite app_nil_r.
    repeat split; auto. apply traced_frames.
  - exists []; simpl fst. rewrite app_nil_r.
    repeat split; auto. apply traced_frames.
Qed.

Lemma animate_plays_in_order_witness :
  exists tail,
    log (fst (_Cycloid.animate _Cycloid.__init__ (Scalar 10)
                (Sequence [4; 5]) (with_thetas [0; 1]) (0, 0) (1000, 1000)
                "white" false "black" 1 (1 # 10) None fresh_world))
    = [EInstantiate 10 4 (with_thetas [0; 1]) (0, 0);
       EInstantiate 10 5 (with_thetas [0; 1]) (0, 0)]
      ++ [ETrace (cycloid (with_thetas [0; 1]) (0, 0) 10 4) None
            (1000, 1000) "white" "black" 1;
          ESleep (1 # 10);
          EClear GlobalScreen;
          ESetup GlobalScreen (1000, 1000);
          EBgcolor GlobalScreen "white";
          ETrace (cycloid (with_thetas [0; 1]) (0, 0) 10 5)
            (Some GlobalScreen) (1000, 1000) "white" "black" 1;
          ESleep (1 # 10)]
      ++ tail.
Proof.
  destruct (animate_plays_in_order _Cycloid.__init__ (Scalar 10)
              (Sequence [4; 5]) (with_thetas [0; 1]) (0, 0) (1000, 1000)
              "white" false "black" 1 (1 # 10) None fresh_world
              (extend fresh_world
                 [EInstantiate 10 4 (with_thetas [0; 1]) (0, 0);
                  EInstantiate 10 5 (with_thetas [0; 1]) (0, 0)])
              [cycloid (with_thetas [0; 1]) (0, 0) 10 4;
               cycloid (with_thetas [0; 1]) (0, 0) 10 5])
    as (tail & Hrun & _ & _).
  - reflexivity.
  - intros H; discriminate H.
  - exists tail. rewrite Hrun. reflexivity.
Defined.

(** C9: in a world where the module's global names are those its own
    statements bind, animate called with exit_on_click=True raises
    NameError for the name turtle, and does so after every shape of
    create_range has been traced and paused on; with exit_on_click=False the
    same playback ends without reading that name.  The cycloids must be
    constructible and the pause one time.sleep accepts. *)
Theorem animate_exit_on_click_NameError (R r : param) (kw : theta_kwargs)
    (origin size : Q * Q) (scol col : string) (width fp : Q)
    (screen : option Screen) (w w1 : world) (shapes : list CurveModel) :
  globals w = module_globals ->
  _Cycloid.create_range _Cycloid.__init__ R r kw origin w = (w1, Ok shapes) ->
  0 <= fp ->
  _Cycloid.animate _Cycloid.__init__ R r kw origin size scol true col width
    fp screen w
  = (extend w1 (frames size scol col width fp shapes screen),
     Raise (NameError "turtle")) /\
  traced (frames size scol col width fp shapes screen) = shapes /\
  _Cycloid.animate _Cycloid.__init__ R r kw origin size scol false col width
    fp screen w
  = (extend w1 (frames size scol col width fp shapes screen), Ok None).
Proof.
  intros Hg Hcr Hfp.
  rewrite !(animate_run _ R r kw origin size scol _ col width fp screen
              w w1 shapes Hcr Hfp).
  cbv zeta.
  destruct (create_range_emits kw origin R r _ _ _ Hcr)
    as [(evs & -> & _) _].
  rewrite globals_extend, Hg, turtle_unbound.
  repeat split. apply traced_frames.
Qed.

Lemma animate_exit_on_click_NameError_witness :
  snd (_Cycloid.animate _Cycloid.__init__ (Scalar 10) (Sequence [4; 5])
         (with_thetas [0; 1]) (0, 0) (1000, 1000) "white" true "black" 1
         (1 # 10) None fresh_world)
  = Raise (NameError "turtle").
Proof.
  destruct (animate_exit_on_click_NameError (Scalar 10) (Sequence [4; 5])
              (with_thetas [0; 1]) (0, 0) (1000, 1000) "white" "black" 1
              (1 # 10) None fresh_world
              (extend fresh_world
                 [EInstantiate 10 4 (with_thetas [0; 1]) (0, 0);
                  EInstantiate 10 5 (with_thetas [0; 1]) (0, 0)])
              [cycloid (with_thetas [0; 1]) (0, 0) 10 4;
               cycloid (with_thetas [0; 1]) (0, 0) 10 5])
    as (Hrun & _ & _).
  - reflexivity.
  - reflexivity.
  - intros H; discriminate H.
  - now rewrite Hrun.
Defined.

(** C10: animate never hands a list of shapes back.  Whatever the class
    and the arguments, its outcome is never a returned list: it is None or
    an exception; and when create_range returns its list, the pause is one
    time.sleep accepts and exit_on_click is off, animate does return, and
    returns None. *)
Theorem animate_returns_None (cls : class) (R r : param)
    (kw : theta_kwargs) (origin size : Q * Q) (scol : string)
    (exit_on_click : bool) (col : string) (width fp : Q)
    (screen : option Screen) (w : world) :
  (forall shapes,
      snd (_Cycloid.animate cls R r kw origin size scol exit_on_click col
             width fp screen w)
      <> Ok (Some shapes)) /\
  (forall w1 shapes,
      _Cycloid.create_range cls R r kw origin w = (w1, Ok shapes) ->
      0 <= fp ->
      exit_on_click = false ->
      snd (_Cycloid.animate cls R r kw origin size scol exit_on_click col
             width fp screen w)
      = Ok None).
Proof.
  split.
  - intros shapes H.
    destruct (_Cycloid.animate cls R r kw origin size scol exit_on_click
                col width fp screen w) as [w' res] eqn:E.
    simpl in H; subst res. unfold _Cycloid.animate in E.
    apply bind_inv in E as [(w1 & a & _ & E) | (e & _ & D)];
      [| discriminate D].
    apply bind_inv in E as [(w2 & b & _ & E) | (e & _ & D)];
      [| discriminate D].
    apply bind_inv in E as [(w3 & c & _ & E) | (e & _ & D)];
      [| discriminate D].
    inversion E.
  - intros w1 shapes Hcr Hfp ->.
    now rewrite (animate_run cls R r kw origin size scol false col width fp
                   screen w w1 shapes Hcr Hfp).
Qed.

Lemma animate_returns_None_witness :
  snd (_Cycloid.animate _Cycloid.__init__ (Scalar 10) (Sequence [4; 5])
         (with_thetas [0; 1]) (0, 0) (1000, 1000) "white" false "black" 1
         (1 # 10) None fresh_world)
  = Ok None.
Proof.
  apply (proj2 (animate_returns_None _Cycloid.__init__ (Scalar 10)
                  (Sequence [4; 5]) (with_thetas [0; 1]) (0, 0) (1000, 1000)
                  "white" false "black" 1 (1 # 10) None fresh_world)
           (extend fresh_world
              [EInstantiate 10 4 (with_thetas [0; 1]) (0, 0);
               EInstantiate 10 5 (with_thetas [0; 1]) (0, 0)])
           [cycloid (with_thetas [0; 1]) (0, 0) 10 4;
            cycloid (with_thetas [0; 1]) (0, 0) 10 5]).
  - reflexivity.
  - intros H; discriminate H.
  - reflexivity.
Defined.

(** ** Sweeps as left-to-right maps *)

Lemma bind_ret_r {A} (m : M A) (w : world) : bind m ret w = m w.
Proof. unfold bind, ret. now destruct (m w) as [w' [a | e]]. Qed.

Lemma map_M_app {A B} (f : A -> M B) (xs ys : list A) :
  forall w,
    map_M f (xs ++ ys) w
    = (bs <- map_M f xs ;; cs <- map_M f ys ;; ret (bs ++ cs)) w.
Proof.
  induction xs as [| x rest IH]; intros w; simpl.
  - unfold bind, ret. now destruct (map_M f ys w) as [w' [cs | e]].
  - unfold bind. destruct (f x w) as [w1 [b | e]]; [| reflexivity].
    rewrite IH. unfold bind.
    destruct (map_M f rest w1) as [w2 [bs | e]]; [| reflexivity].
    unfold ret; simpl. now destruct (map_M f ys w2) as [w3 [cs | e]].
Qed.

Lemma map_M_map {A B C} (f : B -> M C) (g : A -> B) (xs : list A) :
  forall w, map_M f (map g xs) w = map_M (fun x => f (g x)) xs w.
Proof.
  induction xs as [| x rest IH]; intros w; simpl; auto.
  unfold bind. destruct (f (g x) w) as [w1 [c | e]]; [| reflexivity].
  now rewrite IH.
Qed.

(** A loop that appends what its body builds is a left-to-right map. *)
Lemma for_loop_append {A B} (f : A -> M B) (xs : list A) :
  forall acc w,
    for_loop xs (fun x acc => b <- f x ;; ret (acc ++ [b])) acc w
    = (bs <- map_M f xs ;; ret (acc ++ bs)) w.
Proof.
  induction xs as [| x rest IH]; intros acc w; simpl.
  - unfold bind, ret. now rewrite app_nil_r.
  - unfold bind, ret in *. destruct (f x w) as [w1 [b | e]]; [| reflexivity].
    rewrite IH.
    destruct (map_M f rest w1) as [w2 [bs | e]]; [| reflexivity].
    now rewrite <- app_assoc.
Qed.

(** Two nested appending loops are a left-to-right map over the pairs, the
    outer variable varying slowest. *)
Lemma nested_loop_sweep {A B C} (f : A -> B -> M C) (ys : list B)
    (xs : list A) :
  forall acc w,
    for_loop xs (fun x acc =>
      for_loop ys (fun y acc => c <- f x y ;; ret (acc ++ [c])) acc) acc w
    = (cs <- map_M (fun p => f (fst p) (snd p)) (list_prod xs ys) ;;
       ret (acc ++ cs)) w.
Proof.
  induction xs as [| x rest IH]; intros acc w; simpl.
  - unfold bind, ret. now rewrite app_nil_r.
  - pose proof (for_loop_append (f x) ys acc w) as Hin.
    pose proof (map_M_app (fun p => f (fst p) (snd p))
                  (map (fun y => (x, y)) ys) (list_prod rest ys) w) as Happ.
    pose proof (map_M_map (fun p => f (fst p) (snd p)) (fun y => (x, y))
                  ys w) as Hmap.
    simpl in Hmap. unfold bind, ret in *.
    rewrite Hin, Happ, Hmap.
    destruct (map_M (fun y => f x y) ys w) as [w1 [bs | e]]; [| reflexivity].
    rewrite IH.
    destruct (map_M (fun p => f (fst p) (snd p)) (list_prod rest ys) w1)
      as [w2 [cs | e]]; [| reflexivity].
    now rewrite <- app_assoc.
Qed.

Lemma list_prod_empty_r {A B} (xs : list A) :
  list_prod xs (@nil B) = [].
Proof. induction xs as [| x rest IH]; simpl; auto. Qed.

Lemma create_range_sweep_run (cls : class) (R r : param) (kw : theta_kwargs)
    (origin : Q * Q) (w : world) :
  is_iterable R = false \/ is_iterable r = false ->
  _Cycloid.create_range cls R r kw origin w
  = map_M (fun p => instantiate cls (fst p) (snd p) kw origin)
      (list_prod (_Trochoid._set_int_to_list R) (_Trochoid._set_int_to_list r))
      w.
Proof.
  intros One. unfold _Cycloid.create_range.
  replace (1 <? Counter_True [is_iterable R; is_iterable r])%nat with false
    by (destruct One as [-> | ->];
        [destruct (is_iterable r) | destruct (is_iterable R)]; reflexivity).
  cbv zeta.
  rewrite (nested_loop_sweep (fun Ri rj => instantiate cls Ri rj kw origin)).
  apply bind_ret_r.
Qed.

Lemma create_range_ok_one_sequence (cls : class) (R r : param)
    (kw : theta_kwargs) (origin : Q * Q) (w w' : world)
    (shapes : list CurveModel) :
  _Cycloid.create_range cls R r kw origin w = (w', Ok shapes) ->
  is_iterable R = false \/ is_iterable r = false.
Proof.
  destruct (is_iterable R) eqn:HR; [| now left].
  destruct (is_iterable r) eqn:Hr; [| now right].
  unfold _Cycloid.create_range. rewrite HR, Hr. discriminate.
Qed.

Lemma instantiate_inv (R r : Q) (kw : theta_kwargs) (origin : Q * Q)
    (w w' : world) (m : CurveModel) :
  instantiate _Cycloid.__init__ R r kw origin w = (w', Ok m) ->
  w' = extend w [EInstantiate R r kw origin] /\
  m = cycloid kw origin R r /\ legal_theta kw = true /\ nonzero r.
Proof.
  unfold instantiate. rewrite (bind_ok _ _ _ _ _ (emit_run _ w)).
  intros H. now apply cycloid_init_inv in H.
Qed.

(** A sweep of cycloid constructions that returns has built the cycloid of
    every pair, and logged one call per pair. *)
Lemma sweep_cycloids_inv (kw : theta_kwargs) (origin : Q * Q)
    (ps : list (Q * Q)) :
  forall w w' shapes,
    map_M (fun p => instantiate _Cycloid.__init__ (fst p) (snd p) kw origin)
      ps w = (w', Ok shapes) ->
    shapes = map (fun p => cycloid kw origin (fst p) (snd p)) ps /\
    Forall (fun p => nonzero (snd p)) ps /\
    w' = extend w (map (fun p => EInstantiate (fst p) (snd p) kw origin) ps).
Proof.
  induction ps as [| p rest IH]; intros w w' shapes H; simpl in H.
  - inversion H; subst. now rewrite extend_nil.
  - apply bind_inv in H as [(w1 & m & Hm & H) | (e & _ & D)];
      [| discriminate D].
    apply bind_inv in H as [(w2 & ms & Hms & H) | (e & _ & D)];
      [| discriminate D].
    inversion H; subst.
    apply instantiate_inv in Hm as (-> & -> & _ & N).
    apply IH in Hms as (-> & F & ->).
    simpl. rewrite extend_extend. auto.
Qed.

Lemma create_range_empty_run (cls : class) (R r : param)
    (kw : theta_kwargs) (origin : Q * Q) (w : world) :
  is_iterable R = false \/ is_iterable r = false ->
  _Trochoid._set_int_to_list R = [] \/ _Trochoid._set_int_to_list r = [] ->
  _Cycloid.create_range cls R r kw origin w = (w, Ok []).
Proof.
  intros One Empty. rewrite (create_range_sweep_run _ _ _ _ _ _ One).
  destruct Empty as [-> | ->]; [reflexivity |].
  now rewrite list_prod_empty_r.
Qed.

(** ** More on [create_range] *)

(** X1: for any class, when at most one of R and r is a sequence,
    create_range behaves as one left-to-right pass over the pairs (R_i, r_j)
    taken R first: it calls the class on each pair in turn and collects the
    results, and the first call that raises ends the sweep with that
    exception, in the world reached there. *)
Theorem create_range_is_sweep (cls : class) (R r : param)
    (kw : theta_kwargs) (origin : Q * Q) (w : world) :
  is_iterable R = false \/ is_iterable r = false ->
  _Cycloid.create_range cls R r kw origin w
  = map_M (fun p => instantiate cls (fst p) (snd p) kw origin)
      (list_prod (_Trochoid._set_int_to_list R) (_Trochoid._set_int_to_list r))
      w.
Proof.
  intros One. unfold _Cycloid.create_range.
  replace (1 <? Counter_True [is_iterable R; is_iterable r])%nat with false
    by (destruct One as [-> | ->];
        [destruct (is_iterable r) | destruct (is_iterable R)]; reflexivity).
  cbv zeta.
  rewrite (nested_loop_sweep (fun Ri rj => instantiate cls Ri rj kw origin)).
  apply bind_ret_r.
Qed.

Lemma create_range_is_sweep_witness :
  _Cycloid.create_range _Cycloid.__init__ (Sequence [3; 4]) (Scalar 2)
    (with_thetas [0; 1]) (0, 0) fresh_world
  = map_M (fun p => instantiate _Cycloid.__init__ (fst p) (snd p)
                      (with_thetas [0; 1]) (0, 0))
      [(3, 2); (4, 2)] fresh_world.
Proof.
  apply (create_range_is_sweep _Cycloid.__init__ (Sequence [3; 4]) (Scalar 2)).
  right; reflexivity.
Defined.

(** X2: a sweep over an empty sequence (the other argument a scalar)
    returns the empty list and calls nothing: the class is never called, so
    neither the theta specification nor the scalar is ever validated. *)
Theorem create_range_empty_sweep (cls : class) (R r : param)
    (kw : theta_kwargs) (origin : Q * Q) (w : world) :
  is_iterable R = false \/ is_iterable r = false ->
  _Trochoid._set_int_to_list R = [] \/ _Trochoid._set_int_to_list r = [] ->
  _Cycloid.create_range cls R r kw origin w = (w, Ok []).
Proof.
  intros One Empty. rewrite (create_range_sweep_run _ _ _ _ _ _ One).
  destruct Empty as [-> | ->]; [reflexivity |].
  now rewrite list_prod_empty_r.
Qed.

Lemma create_range_empty_sweep_witness :
  _Cycloid.create_range _Cycloid.__init__ (Scalar 10) (Sequence [])
    (with_thetas [0; 1]) (0, 0) fresh_world
  = (fresh_world, Ok []).
Proof.
  apply (create_range_empty_sweep _Cycloid.__init__ (Scalar 10) (Sequence [])).
  - left; reflexivity.
  - right; reflexivity.
Defined.

(** X3: whenever create_range on cycloids returns, at most one of R and r
    was a sequence, the list it returns holds exactly one model per pair
    (R_i, r_j), R-major, each with d = r and r not zero, and the calls it
    made are exactly the constructor calls of those pairs, in that order. *)
Theorem create_range_returns_product (R r : param) (kw : theta_kwargs)
    (origin : Q * Q) (w w' : world) (shapes : list CurveModel) :
  _Cycloid.create_range _Cycloid.__init__ R r kw origin w = (w', Ok shapes) ->
  (is_iterable R = false \/ is_iterable r = false) /\
  map (fun shape => (cm_R shape, cm_r shape)) shapes
  = list_prod (_Trochoid._set_int_to_list R) (_Trochoid._set_int_to_list r) /\
  Forall (fun shape => cm_d shape = cm_r shape /\ nonzero (cm_r shape))
    shapes /\
  w' = extend w
         (map (fun p => EInstantiate (fst p) (snd p) kw origin)
            (list_prod (_Trochoid._set_int_to_list R)
               (_Trochoid._set_int_to_list r))).
Proof.
  intros H. pose proof (create_range_ok_one_sequence _ _ _ _ _ _ _ _ H) as One.
  rewrite (create_range_sweep_run _ _ _ _ _ _ One) in H.
  apply sweep_cycloids_inv in H as (-> & F & ->).
  repeat split; auto.
  - rewrite map_map; simpl.
    rewrite <- (map_id (list_prod _ _)) at 2.
    apply map_ext; now intros [a b].
  - rewrite Forall_map. revert F. apply Forall_impl. now intros [a b].
Qed.

Lemma create_range_returns_product_witness :
  map (fun shape => (cm_R shape, cm_r shape))
    [cycloid (with_thetas [0; 1]) (0, 0) 3 2;
     cycloid (with_thetas [0; 1]) (0, 0) 4 2]
  = [(3, 2); (4, 2)].
Proof.
  apply (create_range_returns_product (Sequence [3; 4]) (Scalar 2)
           (with_thetas [0; 1]) (0, 0) fresh_world
           (extend fresh_world
              [EInstantiate 3 2 (with_thetas [0; 1]) (0, 0);
               EInstantiate 4 2 (with_thetas [0; 1]) (0, 0)])).
  reflexivity.
Defined.

(** ** More on [n_cusps] *)



(** X5: sweeping two scalars is one construction.  For any class and any n
    that is not zero, create_range called with the scalars R and R / n
    calls the class exactly as n_cusps does with R and n, and returns the
    one-element list of what n_cusps returns (or raises what it raises). *)
Theorem create_range_scalars_n_cusps (cls : class) (R n : Q)
    (kw : theta_kwargs) (origin : Q * Q) (w : world) :
  nonzero n ->
  _Cycloid.create_range cls (Scalar R) (Scalar (R / n)) kw origin w
  = (shape <- _Cycloid.n_cusps cls R n kw origin ;; ret [shape]) w.
Proof.
  intros Hn.
  rewrite (create_range_sweep_run cls (Scalar R) (Scalar (R / n)) kw origin w)
    by (left; reflexivity).
  simpl. unfold _Cycloid.n_cusps.
  pose proof (truediv_run R n w Hn) as Hdiv.
  unfold bind, ret in *. rewrite Hdiv.
  now destruct (instantiate cls R (R / n) kw origin w) as [w1 [m | e]].
Qed.

Lemma create_range_scalars_n_cusps_witness :
  _Cycloid.create_range _Cycloid.__init__ (Scalar 10) (Scalar (10 / 5))
    (with_thetas [0; 1]) (0, 0) fresh_world
  = (shape <- _Cycloid.n_cusps _Cycloid.__init__ 10 5 (with_thetas [0; 1])
               (0, 0) ;;
     ret [shape]) fresh_world.
Proof.
  apply (create_range_scalars_n_cusps _Cycloid.__init__ 10 5).
  intros H; discriminate H.
Defined.

(** ** More on [animate] *)

Lemma sleeps_app (a b : list event) : sleeps (a ++ b) = sleeps a ++ sleeps b.
Proof.
  induction a as [| e rest IH]; simpl; auto.
  destruct e; simpl; auto. now rewrite IH.
Qed.

Lemma sleeps_reset (screen : option Screen) (size : Q * Q) (c : string) :
  sleeps (reset_events screen size c) = [].
Proof. now destruct screen. Qed.

Lemma sleeps_frames size scol col width fp (shapes : list CurveModel) :
  forall screen,
    sleeps (frames size scol col width fp shapes screen)
    = repeat fp (length shapes).
Proof.
  induction shapes as [| shape rest IH]; intros screen; simpl; auto.
  rewrite sleeps_app, sleeps_reset; simpl. now rewrite IH.
Qed.

Lemma frames_drawing size scol col width fp (shapes : list CurveModel) :
  forall screen,
    Forall (fun e => is_instantiate e = false)
      (frames size scol col width fp shapes screen).
Proof.
  induction shapes as [| shape rest IH]; intros screen; simpl.
  - constructor.
  - apply Forall_app; split.
    + destruct screen; repeat constructor.
    + repeat constructor. apply IH.
Qed.

Lemma Qle_bool_negative (x : Q) : x < 0 -> Qle_bool 0 x = false.
Proof.
  intros H. destruct (Qle_bool 0 x) eqn:E; auto.
  apply Qle_bool_iff in E. exfalso. now apply (Qlt_not_le x 0).
Qed.

(** X6: animate builds before it draws.  On cycloids, with a pause that
    time.sleep accepts, the calls of animate are the constructor calls of
    the whole sweep followed by the drawing calls; no constructor call comes
    after a drawing call, and when the sweep raises nothing is drawn at
    all. *)
Theorem animate_builds_before_drawing (R r : param) (kw : theta_kwargs)
    (origin size : Q * Q) (scol : string) (exit_on_click : bool)
    (col : string) (width fp : Q) (screen : option Screen) (w : world) :
  0 <= fp ->
  exists built played,
    fst (_Cycloid.animate _Cycloid.__init__ R r kw origin size scol
           exit_on_click col width fp screen w)
    = extend w (built ++ played) /\
    Forall (fun e => is_instantiate e = true) built /\
    Forall (fun e => is_instantiate e = false) played /\
    ((exists e,
         snd (_Cycloid.create_range _Cycloid.__init__ R r kw origin w)
         = Raise e) ->
     played = []).
Proof.
  intros Hfp.
  destruct (_Cycloid.create_range _Cycloid.__init__ R r kw origin w)
    as [w1 res] eqn:Hcr.
  destruct (create_range_emits kw origin R r _ _ _ Hcr)
    as [(built & -> & Hbuilt) _].
  assert (Hb : Forall (fun e => is_instantiate e = true) built).
  { revert Hbuilt. apply Forall_impl. now intros e (Ri & rj & ->). }
  exists built. destruct res as [shapes | e].
  - rewrite (animate_run _ R r kw origin size scol exit_on_click col width
               fp screen w _ shapes Hcr Hfp).
    cbv zeta. rewrite globals_extend.
    destruct exit_on_click;
      [destruct (existsb (String.eqb "turtle") (globals w)) |];
      simpl fst; rewrite ?extend_extend.
    + exists (frames size scol col width fp shapes screen ++ [EExitOnClick]).
      repeat split; auto.
      * apply Forall_app; split; [apply frames_drawing | repeat constructor].
      * intros (e & D); discriminate D.
    + exists (frames size scol col width fp shapes screen).
      repeat split; auto; [apply frames_drawing |].
      intros (e & D); discriminate D.
    + exists (frames size scol col width fp shapes screen).
      repeat split; auto; [apply frames_drawing |].
      intros (e & D); discriminate D.
  - exists []. unfold _Cycloid.animate.
    rewrite (bind_raise _ _ _ _ _ Hcr); simpl fst. rewrite app_nil_r.
    repeat split; auto.
Qed.

Lemma animate_builds_before_drawing_witness :
  exists built played,
    log (fst (_Cycloid.animate _Cycloid.__init__ (Scalar 10)
                (Sequence [4; 0]) (with_thetas [0; 1]) (0, 0) (1000, 1000)
                "white" false "black" 1 (1 # 10) None fresh_world))
    = built ++ played /\
    Forall (fun e => is_instantiate e = true) built /\
    played = [].
Proof.
  assert (Hfp : 0 <= 1 # 10) by (intros H; discriminate H).
  destruct (animate_builds_before_drawing (Scalar 10) (Sequence [4; 0])
              (with_thetas [0; 1]) (0, 0) (1000, 1000) "white" false "black"
              1 (1 # 10) None fresh_world Hfp)
    as (built & played & Hrun & Hb & _ & Hnone).
  exists built, played. rewrite Hrun. repeat split; auto.
  apply Hnone. now exists DegenerateParameterError.
Defined.

(** X7: a negative frame_pause stops the playback at its first pause.  For
    any class, when create_range returns a list that is not empty and
    frame_pause is negative, animate resets the caller's surface if there is
    one, traces the first shape and then raises the ValueError of
    time.sleep; no other shape is traced. *)
Theorem animate_negative_pause (cls : class) (R r : param)
    (kw : theta_kwargs) (origin size : Q * Q) (scol : string)
    (exit_on_click : bool) (col : string) (width fp : Q)
    (screen : option Screen) (w w1 : world) (shape : CurveModel)
    (rest : list CurveModel) :
  _Cycloid.create_range cls R r kw origin w = (w1, Ok (shape :: rest)) ->
  fp < 0 ->
  _Cycloid.animate cls R r kw origin size scol exit_on_click col width fp
    screen w
  = (extend w1 (reset_events screen size scol
                ++ [ETrace shape screen size scol col width]),
     Raise (ValueError "sleep length must be non-negative")).
Proof.
  intros Hcr Hfp. unfold _Cycloid.animate.
  rewrite (bind_ok _ _ _ _ _ Hcr).
  apply bind_raise. simpl for_loop. apply bind_raise.
  rewrite (bind_ok _ _ _ _ _ (reset_run screen size scol w1)).
  unfold _Trochoid.trace.
  erewrite bind_ok by (erewrite bind_ok by apply emit_run; reflexivity).
  apply bind_raise. unfold time_sleep.
  rewrite (Qle_bool_negative fp Hfp). unfold raise.
  now rewrite extend_extend.
Qed.

Lemma animate_negative_pause_witness :
  _Cycloid.animate _Cycloid.__init__ (Scalar 10) (Sequence [4; 5])
    (with_thetas [0; 1]) (0, 0) (1000, 1000) "white" false "black" 1 (-1 # 10)
    None fresh_world
  = (extend
       (extend fresh_world
          [EInstantiate 10 4 (with_thetas [0; 1]) (0, 0);
           EInstantiate 10 5 (with_thetas [0; 1]) (0, 0)])
       (reset_events None (1000, 1000) "white"
        ++ [ETrace (cycloid (with_thetas [0; 1]) (0, 0) 10 4) None
              (1000, 1000) "white" "black" 1]),
     Raise (ValueError "sleep length must be non-negative")).
Proof.
  apply (animate_negative_pause _Cycloid.__init__ (Scalar 10)
           (Sequence [4; 5]) (with_thetas [0; 1]) (0, 0) (1000, 1000) "white"
           false "black" 1 (-1 # 10) None fresh_world _ _
           [cycloid (with_thetas [0; 1]) (0, 0) 10 5]);
    reflexivity.
Defined.

(** X8: animate pauses exactly once per shape.  For any class, when
    create_range returns its list and frame_pause is one time.sleep
    accepts, the calls animate adds contain one time.sleep per shape of the
    list, each of frame_pause seconds. *)
Theorem animate_sleeps_once_per_shape (cls : class) (R r : param)
    (kw : theta_kwargs) (origin size : Q * Q) (scol : string)
    (exit_on_click : bool) (col : string) (width fp : Q)
    (screen : option Screen) (w w1 : world) (shapes : list CurveModel) :
  _Cycloid.create_range cls R r kw origin w = (w1, Ok shapes) ->
  0 <= fp ->
  exists evs,
    fst (_Cycloid.animate cls R r kw origin size scol exit_on_click col
           width fp screen w)
    = extend w1 evs /\
    sleeps evs = repeat fp (length shapes).
Proof.
  intros Hcr Hfp.
  rewrite (animate_run cls R r kw origin size scol exit_on_click col width
             fp screen w w1 shapes Hcr Hfp).
  cbv zeta.
  destruct exit_on_click;
    [destruct (existsb (String.eqb "turtle") (globals w1)) |];
    simpl fst; rewrite ?extend_extend; eexists; split; try reflexivity;
    rewrite ?sleeps_app, sleeps_frames; simpl; now rewrite ?app_nil_r.
Qed.

Lemma animate_sleeps_once_per_shape_witness :
  exists evs,
    fst (_Cycloid.animate _Cycloid.__init__ (Scalar 10) (Sequence [4; 5])
           (with_thetas [0; 1]) (0, 0) (1000, 1000) "white" false "black" 1
           (1 # 10) None fresh_world)
    = extend
        (extend fresh_world
           [EInstantiate 10 4 (with_thetas [0; 1]) (0, 0);
            EInstantiate 10 5 (with_thetas [0; 1]) (0, 0)]) evs /\
    sleeps evs = [1 # 10; 1 # 10].
Proof.
  apply (animate_sleeps_once_per_shape _Cycloid.__init__ (Scalar 10)
           (Sequence [4; 5]) (with_thetas [0; 1]) (0, 0) (1000, 1000) "white"
           false "black" 1 (1 # 10) None fresh_world _
           [cycloid (with_thetas [0; 1]) (0, 0) 10 4;
            cycloid (with_thetas [0; 1]) (0, 0) 10 5]).
  - reflexivity.
  - intros H; discriminate H.
Defined.

(** X9: animating an empty sweep does nothing.  For any class, when one of
    R and r is an empty sequence and the other a scalar, animate with
    exit_on_click off returns None and leaves the world as it found it: no
    constructor call, no reset of the caller's screen, no trace and no
    pause, whatever frame_pause is. *)
Theorem animate_empty_sweep (cls : class) (R r : param) (kw : theta_kwargs)
    (origin size : Q * Q) (scol col : string) (width fp : Q)
    (screen : option Screen) (w : world) :
  is_iterable R = false \/ is_iterable r = false ->
  _Trochoid._set_int_to_list R = [] \/ _Trochoid._set_int_to_list r = [] ->
  _Cycloid.animate cls R r kw origin size scol false col width fp screen w
  = (w, Ok None).
Proof.
  intros One Empty. unfold _Cycloid.animate.
  now rewrite (bind_ok _ _ _ _ _
                 (create_range_empty_run cls R r kw origin w One Empty)).
Qed.

Lemma animate_empty_sweep_witness :
  _Cycloid.animate _Cycloid.__init__ (Sequence []) (Scalar 0)
    (with_thetas [0; 1]) (0, 0) (1000, 1000) "white" false "black" 1
    (-1 # 10) (Some (Handle 0)) fresh_world
  = (fresh_world, Ok None).
Proof.
  apply (animate_empty_sweep _Cycloid.__init__ (Sequence []) (Scalar 0)).
  - right; reflexivity.
  - left; reflexivity.
Defined.

Lemma frames_styled size scol col width fp (shapes : list CurveModel) :
  forall screen,
    Forall (styled size scol col width fp)
      (frames size scol col width fp shapes screen).
Proof.
  induction shapes as [| shape rest IH]; intros screen; simpl.
  - constructor.
  - apply Forall_app; split.
    + destruct screen; repeat constructor.
    + repeat constructor. apply IH.
Qed.

(** X10: animate draws every shape with the caller's styling.  For any
    class, when create_range returns its list and frame_pause is one
    time.sleep accepts, none of the calls animate adds is a constructor
    call, every setup uses screen_size, every bgcolor uses screen_color,
    every trace receives screen_size, screen_color, color and width as
    passed, and every pause lasts frame_pause. *)
Theorem animate_keeps_styling (cls : class) (R r : param)
    (kw : theta_kwargs) (origin size : Q * Q) (scol : string)
    (exit_on_click : bool) (col : string) (width fp : Q)
    (screen : option Screen) (w w1 : world) (shapes : list CurveModel) :
  _Cycloid.create_range cls R r kw origin w = (w1, Ok shapes) ->
  0 <= fp ->
  exists evs,
    fst (_Cycloid.animate cls R r kw origin size scol exit_on_click col
           width fp screen w)
    = extend w1 evs /\
    Forall (styled size scol col width fp) evs.
Proof.
  intros Hcr Hfp.
  rewrite (animate_run cls R r kw origin size scol exit_on_click col width
             fp screen w w1 shapes Hcr Hfp).
  cbv zeta.
  destruct exit_on_click;
    [destruct (existsb (String.eqb "turtle") (globals w1)) |];
    simpl fst; rewrite ?extend_extend; eexists; split; try reflexivity;
    try apply Forall_app; try split; try apply frames_styled;
    repeat constructor.
Qed.

Lemma animate_keeps_styling_witness :
  exists evs,
    fst (_Cycloid.animate _Cycloid.__init__ (Scalar 10) (Sequence [4; 5])
           (with_thetas [0; 1]) (0, 0) (800, 600) "navy" false "gold" 2
           (1 # 10) (Some (Handle 7)) fresh_world)
    = extend
        (extend fresh_world
           [EInstantiate 10 4 (with_thetas [0; 1]) (0, 0);
            EInstantiate 10 5 (with_thetas [0; 1]) (0, 0)]) evs /\
    Forall (styled (800, 600) "navy" "gold" 2 (1 # 10)) evs.
Proof.
  apply (animate_keeps_styling _Cycloid.__init__ (Scalar 10)
           (Sequence [4; 5]) (with_thetas [0; 1]) (0, 0) (800, 600) "navy"
           false "gold" 2 (1 # 10) (Some (Handle 7)) fresh_world _
           [cycloid (with_thetas [0; 1]) (0, 0) 10 4;
            cycloid (with_thetas [0; 1]) (0, 0) 10 5]).
  - reflexivity.
  - intros H; discriminate H.
Defined.
